(** * LED sequencer firmware (app/src/main.c): model and verification

    The firmware drives four GPIO-backed LEDs: [init_leds] configures them,
    [startup_blink] flashes them at boot, [do_chase_lap] sweeps a single-LED
    blink forward and back, and [main] strings these together and then loops
    forever.

    The C functions are embedded as computations in a small monad that
    threads the logical level of every LED and records, in program order,
    every call the firmware makes into the platform (GPIO driver, sleeps,
    logging, printk). *)

From Stdlib Require Import ZArith List Bool Lia PeanoNat.
Import ListNotations.

Local Open Scope Z_scope.

(** ** Platform constants and the LED table *)

(** Modelled from the spec: errno.h belongs to the platform, not to this
    repository.  [ENODEV] is its code for a device that is not there, 19 in
    Zephyr's table; the results below use at most that it is not 0. *)
Definition ENODEV : Z := 19.

Definition STEP_DELAY_MS : Z := 150.
Definition LAP_DELAY_MS : Z := 400.
Definition STARTUP_FLASHES : nat := 2.

(** The devicetree aliases the build asserts to exist. *)
Inductive dt_alias : Type := led0 | led1 | led2 | led3.

(** [static const struct gpio_dt_spec leds[]]: one entry per alias. *)
Definition leds : list dt_alias := [led0; led1; led2; led3].

(** [NUM_LEDS] is [sizeof(leds) / sizeof(leds[0])]. *)
Definition NUM_LEDS : nat := length leds.

(** ** The GPIO driver interface

    The driver (Zephyr's gpio.h) is an external collaborator; what its calls
    do is taken from the spec's description of [isReady], [configureOutput],
    [setLevel] and [toggleLevel].  An LED is named by its index [i] into
    [leds], standing for the pointer [&leds[i]]. *)

(** Modelled from the spec: configuration flags of gpio.h, an output whose
    initial logical level is inactive or active. *)
Inductive gpio_flags : Type := GPIO_OUTPUT_INACTIVE | GPIO_OUTPUT_ACTIVE.

Definition initial_level (f : gpio_flags) : bool :=
  match f with
  | GPIO_OUTPUT_INACTIVE => false
  | GPIO_OUTPUT_ACTIVE => true
  end.

(** Modelled from the spec: what the hardware answers, namely whether the
    device behind LED [i] is ready, and the [int] that configuring LED [i]
    returns (0 on success, an error code otherwise).  The code is kept as
    an unbounded integer; the firmware only compares it with 0 and passes
    it on. *)
Record gpio_driver : Type := {
  dev_ready : nat -> bool;
  configure_rc : nat -> gpio_flags -> Z
}.

(** ** Observable events *)

(** Records of the structured logging channel. *)
Inductive log_record : Type :=
| ERR_not_ready (i : nat)                    (* "LED%u GPIO device not ready" *)
| ERR_configure_failed (i : nat) (err : Z)   (* "LED%u configure failed: %d" *)
| INF_leds_ready (n : nat).                  (* "LEDs ready: %u" *)

Inductive event : Type :=
| EvIsReady (i : nat)
| EvConfigure (i : nat) (flags : gpio_flags)
| EvSet (i : nat) (value : Z)
| EvToggle (i : nat)
| EvSleep (ms : Z)
| EvLog (r : log_record)
| EvPrintk (err : Z).                        (* "LED init failed: %d\n" *)

(** ** The monad: LED levels threaded, events emitted *)

(** The logical level of every LED, [true] meaning active. *)
Definition levels : Type := nat -> bool.

Definition set_level (l : levels) (i : nat) (v : bool) : levels :=
  fun j => if Nat.eqb j i then v else l j.

Definition M (A : Type) : Type := levels -> A * levels * list event.

Definition ret {A} (a : A) : M A := fun l => (a, l, []).

Definition bind {A B} (m : M A) (k : A -> M B) : M B :=
  fun l =>
    let '(a, l1, t1) := m l in
    let '(b, l2, t2) := k a l1 in
    (b, l2, t1 ++ t2).

Declare Scope led_scope.
Delimit Scope led_scope with led.
Notation "x <- m ;; k" := (bind m (fun x => k))
  (at level 61, m at next level, right associativity) : led_scope.
Notation "m ;; k" := (bind m (fun _ => k))
  (at level 61, right associativity) : led_scope.
Local Open Scope led_scope.

Definition result {A} (m : M A) (l : levels) : A := fst (fst (m l)).
Definition final {A} (m : M A) (l : levels) : levels := snd (fst (m l)).
Definition emitted {A} (m : M A) (l : levels) : list event := snd (m l).

(** ** Platform calls *)

Definition gpio_is_ready_dt (drv : gpio_driver) (i : nat) : M bool :=
  fun l => (dev_ready drv i, l, [EvIsReady i]).

(** Modelled from the spec: a successful configuration drives the pin to the
    flags' initial level; a failed one leaves the pin as it was. *)
Definition gpio_pin_configure_dt (drv : gpio_driver) (i : nat)
    (flags : gpio_flags) : M Z :=
  fun l =>
    let rc := configure_rc drv i flags in
    (rc,
     if Z.eqb rc 0 then set_level l i (initial_level flags) else l,
     [EvConfigure i flags]).

(** Modelled from the spec: [setLevel] writes an absolute logical level;
    [value] is C's [int], any nonzero value meaning active. *)
Definition gpio_pin_set_dt (i : nat) (value : Z) : M unit :=
  fun l => (tt, set_level l i (negb (Z.eqb value 0)), [EvSet i value]).

(** Modelled from the spec: [toggleLevel] inverts the logical level. *)
Definition gpio_pin_toggle_dt (i : nat) : M unit :=
  fun l => (tt, set_level l i (negb (l i)), [EvToggle i]).

(** Modelled from the spec: a blocking sleep; nothing else runs and no LED
    changes meanwhile. *)
Definition k_msleep (ms : Z) : M unit := fun l => (tt, l, [EvSleep ms]).

Definition LOG_ERR_not_ready (i : nat) : M unit :=
  fun l => (tt, l, [EvLog (ERR_not_ready i)]).

Definition LOG_ERR_configure_failed (i : nat) (err : Z) : M unit :=
  fun l => (tt, l, [EvLog (ERR_configure_failed i err)]).

Definition LOG_INF_leds_ready (n : nat) : M unit :=
  fun l => (tt, l, [EvLog (INF_leds_ready n)]).

Definition printk_init_failed (err : Z) : M unit :=
  fun l => (tt, l, [EvPrintk err]).

(** ** Loops

    The counters ([size_t i], [uint32_t n]) stay below [NUM_LEDS] and
    [STARTUP_FLASHES], so they are natural numbers. *)

(** [for (i = start; i < start + n; ++i) body(i)] *)
Fixpoint for_up (start n : nat) (body : nat -> M unit) : M unit :=
  match n with
  | O => ret tt
  | S n' => body start ;; for_up (S start) n' body
  end.

(** [for (i = n; i-- > 0; ) body(i)]: the test reads [i] before the
    decrement, so the body sees n-1, ..., 0. *)
Fixpoint for_down (n : nat) (body : nat -> M unit) : M unit :=
  match n with
  | O => ret tt
  | S n' => body n' ;; for_down n' body
  end.

(** ** The firmware *)

(** The loop of [init_leds], at index [i] with [n] iterations to go; both
    [return]s inside the body leave the loop. *)
Fixpoint init_loop (drv : gpio_driver) (i n : nat) : M Z :=
  match n with
  | O => ret 0
  | S n' =>
      ready <- gpio_is_ready_dt drv i ;;
      if negb ready then
        LOG_ERR_not_ready i ;;
        ret (- ENODEV)
      else
        err <- gpio_pin_configure_dt drv i GPIO_OUTPUT_INACTIVE ;;
        if negb (Z.eqb err 0) then
          LOG_ERR_configure_failed i err ;;
          ret err
        else
          init_loop drv (S i) n'
  end.

Definition init_leds (drv : gpio_driver) : M Z := init_loop drv 0 NUM_LEDS.

Definition startup_blink : M unit :=
  for_up 0 STARTUP_FLASHES (fun _ =>
    for_up 0 NUM_LEDS (fun i => gpio_pin_set_dt i 1) ;;
    k_msleep 0 ;;
    for_up 0 NUM_LEDS (fun i => gpio_pin_set_dt i 0) ;;
    k_msleep 100).

Definition do_chase_lap : M unit :=
  for_up 0 NUM_LEDS (fun i =>
    gpio_pin_toggle_dt i ;;
    k_msleep STEP_DELAY_MS ;;
    gpio_pin_toggle_dt i) ;;
  for_down NUM_LEDS (fun i =>
    gpio_pin_toggle_dt i ;;
    k_msleep STEP_DELAY_MS ;;
    gpio_pin_toggle_dt i) ;;
  k_msleep LAP_DELAY_MS.

(** [for (;;) do_chase_lap();] observed for its first [laps] iterations. *)
Fixpoint chase_loop (laps : nat) : M unit :=
  match laps with
  | O => ret tt
  | S n => do_chase_lap ;; chase_loop n
  end.

(** What an observer of [main] sees: it has returned a code, or it is still
    inside the endless loop. *)
Inductive outcome : Type :=
| Returned (rc : Z)
| Running.

(** [main], watched until it returns or has completed [laps] chase laps. *)
Definition main (drv : gpio_driver) (laps : nat) : M outcome :=
  err <- init_leds drv ;;
  if negb (Z.eqb err 0) then
    printk_init_failed err ;;
    ret (Returned err)
  else
    LOG_INF_leds_ready NUM_LEDS ;;
    startup_blink ;;
    chase_loop laps ;;
    ret Running.

(** ** Vocabulary of the properties *)

(** LED [j] is ready and its configuration succeeds. *)
Definition led_ok (drv : gpio_driver) (j : nat) : Prop :=
  dev_ready drv j = true /\ configure_rc drv j GPIO_OUTPUT_INACTIVE = 0.

(** LED [k] is the first LED of the table that is not ready. *)
Definition first_not_ready (drv : gpio_driver) (k : nat) : Prop :=
  (k < NUM_LEDS)%nat /\ dev_ready drv k = false /\
  forall j, (j < k)%nat -> dev_ready drv j = true.

(** The LED a driver call acts on; sleeps, log records and printk act on
    none. *)
Definition led_of_event (ev : event) : option nat :=
  match ev with
  | EvIsReady i | EvConfigure i _ | EvSet i _ | EvToggle i => Some i
  | EvSleep _ | EvLog _ | EvPrintk _ => None
  end.

(** [ev] configures LED [i]. *)
Definition configures (i : nat) (ev : event) : bool :=
  match ev with
  | EvConfigure j _ => Nat.eqb j i
  | _ => false
  end.

(** Calls only [startup_blink] and [do_chase_lap] make. *)
Definition is_animation (ev : event) : bool :=
  match ev with
  | EvSet _ _ | EvToggle _ | EvSleep _ => true
  | _ => false
  end.

(** Informational log records. *)
Definition is_info (ev : event) : bool :=
  match ev with
  | EvLog (INF_leds_ready _) => true
  | _ => false
  end.

(** The calls of one [init_leds] iteration that goes through. *)
Definition ok_calls (i : nat) : list event :=
  [EvIsReady i; EvConfigure i GPIO_OUTPUT_INACTIVE].

(** Levels after LEDs [i], ..., [i+n-1] were configured inactive. *)
Fixpoint configured (l : levels) (i n : nat) : levels :=
  match n with
  | O => l
  | S n' => configured (set_level l i false) (S i) n'
  end.

(** One toggle, hold, toggle step of the chase. *)
Definition toggle_pair (i : nat) : list event :=
  [EvToggle i; EvSleep 150; EvToggle i].

(** The calls of one whole lap and of the whole startup blink. *)
Definition lap_calls : list event :=
  flat_map toggle_pair [0; 1; 2; 3]%nat ++
  flat_map toggle_pair [3; 2; 1; 0]%nat ++ [EvSleep 400].

Definition blink_cycle_calls : list event :=
  map (fun i => EvSet i 1) [0; 1; 2; 3]%nat ++ [EvSleep 0] ++
  map (fun i => EvSet i 0) [0; 1; 2; 3]%nat ++ [EvSleep 100].

(** ** Sample drivers and levels *)

(** Every LED ready, every configuration succeeding. *)
Definition drv_all_ok : gpio_driver :=
  {| dev_ready := fun _ => true; configure_rc := fun _ _ => 0 |}.

(** LEDs below [k] ready, LED [k] and later not; configuration succeeds. *)
Definition drv_not_ready_from (k : nat) : gpio_driver :=
  {| dev_ready := fun i => Nat.ltb i k; configure_rc := fun _ _ => 0 |}.

(** Every LED ready; configuring LED [k] returns [e], the others succeed. *)
Definition drv_configure_fails (k : nat) (e : Z) : gpio_driver :=
  {| dev_ready := fun _ => true;
     configure_rc := fun i _ => if Nat.eqb i k then e else 0 |}.

(** LED 0 ready but failing to configure with -5 (EIO); LED 1 not ready. *)
Definition drv_led0_unconfigurable_led1_absent : gpio_driver :=
  {| dev_ready := fun i => Nat.eqb i 0;
     configure_rc := fun i _ => if Nat.eqb i 0 then -5 else 0 |}.

Definition all_inactive : levels := fun _ => false.
Definition all_active : levels := fun _ => true.
Definition odd_active : levels := Nat.odd.

(** ** Vocabulary of the further properties *)

(** [led_ok], decided. *)
Definition led_good (drv : gpio_driver) (i : nat) : bool :=
  dev_ready drv i && Z.eqb (configure_rc drv i GPIO_OUTPUT_INACTIVE) 0.

(** The first LED of the table that is not ready or fails to configure. *)
Definition first_bad (drv : gpio_driver) : option nat :=
  find (fun i => negb (led_good drv i)) (seq 0 NUM_LEDS).

(** What [init_leds] returns and calls, read off the first bad LED. *)
Definition init_outcome (drv : gpio_driver) : Z * list event :=
  match first_bad drv with
  | None => (0, flat_map ok_calls (seq 0 NUM_LEDS))
  | Some k =>
      if dev_ready drv k then
        let e := configure_rc drv k GPIO_OUTPUT_INACTIVE in
        (e, flat_map ok_calls (seq 0 k) ++
            [EvIsReady k; EvConfigure k GPIO_OUTPUT_INACTIVE;
             EvLog (ERR_configure_failed k e)])
      else
        (- ENODEV,
         flat_map ok_calls (seq 0 k) ++ [EvIsReady k; EvLog (ERR_not_ready k)])
  end.

(** Error-level log records. *)
Definition is_error (ev : event) : bool :=
  match ev with
  | EvLog (ERR_not_ready _) | EvLog (ERR_configure_failed _ _) => true
  | _ => false
  end.

(** Milliseconds spent in [k_msleep] over a trace. *)
Fixpoint total_sleep (t : list event) : Z :=
  match t with
  | [] => 0
  | EvSleep ms :: t' => ms + total_sleep t'
  | _ :: t' => total_sleep t'
  end.

(** The effect of one recorded call on the levels.  Writes and toggles act
    as [gpio_pin_set_dt] and [gpio_pin_toggle_dt] do; the other calls of
    the animation change nothing. *)
Definition apply_event (l : levels) (ev : event) : levels :=
  match ev with
  | EvSet i v => set_level l i (negb (Z.eqb v 0))
  | EvToggle i => set_level l i (negb (l i))
  | _ => l
  end.

(** The levels reached from [l] once the calls of [t] have been made. *)
Definition replay (t : list event) (l : levels) : levels :=
  fold_left apply_event t l.

(** Every LED ready; configuring LED 2 fails with -5 (EIO). *)
Definition drv_led2_unconfigurable : gpio_driver := drv_configure_fails 2 (-5).

(** * Verification *)

(** ** Running a sequence *)

Lemma result_bind {A B} (m : M A) (k : A -> M B) (l : levels) :
  result (bind m k) l = result (k (result m l)) (final m l).
Proof.
  unfold result, final, bind.
  destruct (m l) as [[a l1] t1]; cbn.
  destruct (k a l1) as [[b l2] t2]; reflexivity.
Qed.

Lemma final_bind {A B} (m : M A) (k : A -> M B) (l : levels) :
  final (bind m k) l = final (k (result m l)) (final m l).
Proof.
  unfold result, final, bind.
  destruct (m l) as [[a l1] t1]; cbn.
  destruct (k a l1) as [[b l2] t2]; reflexivity.
Qed.

Lemma emitted_bind {A B} (m : M A) (k : A -> M B) (l : levels) :
  emitted (bind m k) l = emitted m l ++ emitted (k (result m l)) (final m l).
Proof.
  unfold result, final, emitted, bind.
  destruct (m l) as [[a l1] t1]; cbn.
  destruct (k a l1) as [[b l2] t2]; reflexivity.
Qed.

(** ** Counted loops *)

Section Loops.
Variable body : nat -> M unit.

(** A body whose calls do not depend on the LED levels. *)
Variable calls : nat -> list event.
Hypothesis body_calls : forall i l, emitted (body i) l = calls i.

Lemma for_up_emitted (n start : nat) (l : levels) :
  emitted (for_up start n body) l = flat_map calls (seq start n).
Proof.
  revert start l; induction n as [|n IH]; intros start l; cbn [for_up seq flat_map].
  - reflexivity.
  - rewrite emitted_bind, body_calls, IH; reflexivity.
Qed.

Lemma for_down_emitted (n : nat) (l : levels) :
  emitted (for_down n body) l = flat_map calls (rev (seq 0 n)).
Proof.
  revert l; induction n as [|n IH]; intros l.
  - reflexivity.
  - cbn [for_down]. rewrite emitted_bind, body_calls, IH.
    rewrite seq_S, rev_app_distr; reflexivity.
Qed.

(** A body that leaves every level as it found it. *)
Hypothesis body_neutral : forall i l p, final (body i) l p = l p.

Lemma for_up_neutral (n start : nat) (l : levels) (p : nat) :
  final (for_up start n body) l p = l p.
Proof.
  revert start l; induction n as [|n IH]; intros start l; cbn [for_up].
  - reflexivity.
  - rewrite final_bind, IH; apply body_neutral.
Qed.

Lemma for_down_neutral (n : nat) (l : levels) (p : nat) :
  final (for_down n body) l p = l p.
Proof.
  revert l; induction n as [|n IH]; intros l; cbn [for_down].
  - reflexivity.
  - rewrite final_bind, IH; apply body_neutral.
Qed.
End Loops.

(** ** Levels *)

Lemma set_level_same (l : levels) (i : nat) (v : bool) :
  set_level l i v i = v.
Proof. unfold set_level; now rewrite Nat.eqb_refl. Qed.

Lemma set_level_other (l : levels) (i j : nat) (v : bool) :
  j <> i -> set_level l i v j = l j.
Proof.
  intros Hne; unfold set_level.
  now apply Nat.eqb_neq in Hne; rewrite Hne.
Qed.

Lemma configured_spec (n i : nat) (l : levels) (p : nat) :
  configured l i n p =
  if (Nat.leb i p && Nat.ltb p (i + n))%bool then false else l p.
Proof.
  revert i l; induction n as [|n IH]; intros i l; cbn [configured].
  - replace (Nat.ltb p (i + 0)) with (Nat.ltb p i) by (f_equal; lia).
    destruct (Nat.leb_spec i p), (Nat.ltb_spec p i); cbn; try reflexivity; lia.
  - rewrite IH.
    destruct (Nat.leb_spec (S i) p), (Nat.ltb_spec p (S i + n)),
      (Nat.leb_spec i p), (Nat.ltb_spec p (i + S n)); cbn; try lia;
      try reflexivity;
      solve [ apply set_level_other; lia
            | replace p with i by lia; apply set_level_same ].
Qed.

(** ** The initialisation loop *)

Section InitLoop.
Variable drv : gpio_driver.

(** An LED that is not ready ends the loop at once. *)
Lemma init_loop_not_ready (i n : nat) (l : levels) :
  dev_ready drv i = false ->
  init_loop drv i (S n) l =
  (- ENODEV, l, [EvIsReady i; EvLog (ERR_not_ready i)]).
Proof.
  intros Hr; cbn [init_loop].
  unfold bind, gpio_is_ready_dt, LOG_ERR_not_ready, ret.
  rewrite Hr; reflexivity.
Qed.

(** So does an LED whose configuration fails. *)
Lemma init_loop_configure_failed (i n : nat) (l : levels) (e : Z) :
  dev_ready drv i = true ->
  configure_rc drv i GPIO_OUTPUT_INACTIVE = e -> e <> 0 ->
  init_loop drv i (S n) l =
  (e, l, [EvIsReady i; EvConfigure i GPIO_OUTPUT_INACTIVE;
          EvLog (ERR_configure_failed i e)]).
Proof.
  intros Hr Hc He; cbn [init_loop].
  unfold bind, gpio_is_ready_dt, gpio_pin_configure_dt,
    LOG_ERR_configure_failed, ret.
  rewrite Hr, Hc; cbn [negb].
  apply Z.eqb_neq in He; rewrite He; reflexivity.
Qed.

(** A good LED is configured and the loop moves on. *)
Lemma init_loop_ok (i n : nat) (l : levels) :
  led_ok drv i ->
  init_loop drv i (S n) l =
  let '(r, l', t) := init_loop drv (S i) n (set_level l i false) in
  (r, l', ok_calls i ++ t).
Proof.
  intros [Hr Hc]; cbn [init_loop].
  unfold bind, gpio_is_ready_dt, gpio_pin_configure_dt.
  rewrite Hr, Hc; cbn [negb Z.eqb initial_level].
  destruct (init_loop drv (S i) n (set_level l i false)) as [[r l'] t].
  reflexivity.
Qed.

(** A run of [m] good LEDs, followed by whatever the rest does. *)
Lemma init_loop_prefix (m n i : nat) (l : levels) :
  (forall j, (i <= j < i + m)%nat -> led_ok drv j) ->
  init_loop drv i (m + n) l =
  let '(r, l', t) := init_loop drv (i + m) n (configured l i m) in
  (r, l', flat_map ok_calls (seq i m) ++ t).
Proof.
  revert i l; induction m as [|m IH]; intros i l Hok.
  - cbn [configured seq flat_map Nat.add app].
    rewrite Nat.add_0_r.
    now destruct (init_loop drv i n l) as [[r l'] t].
  - cbn [Nat.add]. rewrite init_loop_ok by (apply Hok; lia).
    rewrite IH by (intros j Hj; apply Hok; lia).
    cbn [configured seq flat_map].
    replace (S i + m)%nat with (i + S m)%nat by lia.
    destruct (init_loop drv (i + S m) n _) as [[r l'] t].
    now rewrite <- app_assoc.
Qed.

(** Whatever the hardware answers, initialisation never writes a level
    through set or toggle, never sleeps and never logs at info level. *)
Lemma init_loop_quiet (n i : nat) (l : levels) :
  Forall (fun ev => is_animation ev = false /\ is_info ev = false)
         (emitted (init_loop drv i n) l).
Proof.
  revert i l; induction n as [|n IH]; intros i l.
  - constructor.
  - destruct (dev_ready drv i) eqn:Hr.
    + destruct (Z.eq_dec (configure_rc drv i GPIO_OUTPUT_INACTIVE) 0) as [Hc|Hc].
      * unfold emitted. rewrite init_loop_ok by (split; assumption).
        specialize (IH (S i) (set_level l i false)); unfold emitted in IH.
        destruct (init_loop drv (S i) n _) as [[r l'] t]; cbn in *.
        repeat constructor; assumption.
      * unfold emitted.
        rewrite (init_loop_configure_failed i n l _ Hr eq_refl Hc); cbn.
        repeat constructor.
    + unfold emitted. rewrite init_loop_not_ready by assumption; cbn.
      repeat constructor.
Qed.
End InitLoop.

(** ** The calls of the good iterations *)

Lemma ok_calls_led (m i : nat) (ev : event) (j : nat) :
  In ev (flat_map ok_calls (seq i m)) -> led_of_event ev = Some j ->
  (i <= j < i + m)%nat.
Proof.
  intros Hin Hled. apply in_flat_map in Hin as (x & Hx & Hev).
  apply in_seq in Hx.
  destruct Hev as [<- | [<- | []]]; cbn in Hled; injection Hled as <-; lia.
Qed.

Lemma ok_calls_flags (m i : nat) (j : nat) (f : gpio_flags) :
  In (EvConfigure j f) (flat_map ok_calls (seq i m)) ->
  f = GPIO_OUTPUT_INACTIVE.
Proof.
  intros Hin. apply in_flat_map in Hin as (x & _ & Hev).
  destruct Hev as [Hev | [Hev | []]]; now inversion Hev.
Qed.

Lemma ok_calls_configures (m i j : nat) :
  length (filter (configures j) (flat_map ok_calls (seq i m))) =
  if (Nat.leb i j && Nat.ltb j (i + m))%bool then 1%nat else 0%nat.
Proof.
  revert i; induction m as [|m IH]; intros i.
  - cbn [seq flat_map filter length].
    destruct (Nat.leb_spec i j), (Nat.ltb_spec j (i + 0)); cbn [andb];
      try reflexivity; lia.
  - cbn [seq flat_map ok_calls app filter configures].
    destruct (Nat.eqb_spec i j) as [->|Hne]; cbn [length]; rewrite IH.
    + rewrite Nat.leb_refl.
      destruct (Nat.leb_spec (S j) j), (Nat.ltb_spec j (j + S m)); cbn;
        try reflexivity; lia.
    + destruct (Nat.leb_spec (S i) j), (Nat.ltb_spec j (S i + m)),
        (Nat.leb_spec i j), (Nat.ltb_spec j (i + S m)); cbn;
        try reflexivity; lia.
Qed.

Lemma last_two {A} (t : list A) (a b d : A) : last (t ++ [a; b]) d = b.
Proof.
  change (t ++ [a; b]) with (t ++ [a] ++ [b]).
  rewrite app_assoc; apply last_last.
Qed.

(** ** The three ways [init_leds] ends *)

Lemma init_leds_completes (drv : gpio_driver) (l : levels) :
  (forall i, (i < NUM_LEDS)%nat -> led_ok drv i) ->
  init_leds drv l =
  (0, configured l 0 NUM_LEDS, flat_map ok_calls (seq 0 NUM_LEDS)).
Proof.
  intros Hok. unfold init_leds.
  rewrite <- (Nat.add_0_r NUM_LEDS) at 1.
  rewrite init_loop_prefix by (intros j Hj; apply Hok; lia).
  cbn [init_loop]; unfold ret. now rewrite app_nil_r.
Qed.

Lemma init_leds_stops_not_ready (drv : gpio_driver) (k : nat) (l : levels) :
  first_not_ready drv k ->
  (forall j, (j < k)%nat -> configure_rc drv j GPIO_OUTPUT_INACTIVE = 0) ->
  init_leds drv l =
  (- ENODEV, configured l 0 k,
   flat_map ok_calls (seq 0 k) ++ [EvIsReady k; EvLog (ERR_not_ready k)]).
Proof.
  intros (Hk & Hnot & Hready) Hcfg. unfold init_leds.
  replace NUM_LEDS with (k + S (NUM_LEDS - S k))%nat by lia.
  rewrite init_loop_prefix
    by (intros j Hj; split; [apply Hready | apply Hcfg]; lia).
  cbn [Nat.add]. now rewrite init_loop_not_ready.
Qed.

Lemma init_leds_stops_configure_failed (drv : gpio_driver) (i : nat) (e : Z)
    (l : levels) :
  (i < NUM_LEDS)%nat ->
  (forall j, (j < i)%nat -> led_ok drv j) ->
  dev_ready drv i = true ->
  configure_rc drv i GPIO_OUTPUT_INACTIVE = e -> e <> 0 ->
  init_leds drv l =
  (e, configured l 0 i,
   flat_map ok_calls (seq 0 i) ++
   [EvIsReady i; EvConfigure i GPIO_OUTPUT_INACTIVE;
    EvLog (ERR_configure_failed i e)]).
Proof.
  intros Hi Hok Hr Hc He. unfold init_leds.
  replace NUM_LEDS with (i + S (NUM_LEDS - S i))%nat by lia.
  rewrite init_loop_prefix by (intros j Hj; apply Hok; lia).
  cbn [Nat.add]. now rewrite (init_loop_configure_failed drv i _ _ e).
Qed.

(** * Initialisation *)

(** C1.  With four LEDs that are all ready and all configure successfully,
    [init_leds] returns 0.  Its calls are, for LED 0, 1, 2, 3 in turn, one
    readiness check and one configuration as inactive output: every LED is
    configured exactly once, only with [GPIO_OUTPUT_INACTIVE], and is at
    the inactive level afterwards. *)
Theorem init_leds_all_ok (drv : gpio_driver) (l : levels) :
  (forall i, (i < NUM_LEDS)%nat -> led_ok drv i) ->
  NUM_LEDS = 4%nat /\
  result (init_leds drv) l = 0 /\
  emitted (init_leds drv) l =
    [EvIsReady 0; EvConfigure 0 GPIO_OUTPUT_INACTIVE;
     EvIsReady 1; EvConfigure 1 GPIO_OUTPUT_INACTIVE;
     EvIsReady 2; EvConfigure 2 GPIO_OUTPUT_INACTIVE;
     EvIsReady 3; EvConfigure 3 GPIO_OUTPUT_INACTIVE] /\
  forall i, (i < NUM_LEDS)%nat ->
    length (filter (configures i) (emitted (init_leds drv) l)) = 1%nat /\
    (forall f, In (EvConfigure i f) (emitted (init_leds drv) l) ->
               f = GPIO_OUTPUT_INACTIVE) /\
    final (init_leds drv) l i = false.
Proof.
  intros Hok.
  unfold result, final, emitted; rewrite (init_leds_completes drv l Hok).
  cbn [fst snd]. repeat split; intros.
  - rewrite ok_calls_configures.
    destruct (Nat.ltb_spec i (0 + NUM_LEDS)); [reflexivity | lia].
  - eapply ok_calls_flags; eassumption.
  - rewrite configured_spec.
    destruct (Nat.ltb_spec i (0 + NUM_LEDS)); [reflexivity | lia].
Qed.

Lemma init_leds_all_ok_witness :
  (forall i, (i < NUM_LEDS)%nat -> led_ok drv_all_ok i) /\
  result (init_leds drv_all_ok) all_active = 0 /\
  final (init_leds drv_all_ok) all_active 2%nat = false.
Proof.
  assert (H : forall i, (i < NUM_LEDS)%nat -> led_ok drv_all_ok i)
    by (intros i _; split; reflexivity).
  split; [exact H|].
  destruct (init_leds_all_ok drv_all_ok all_active H) as (_ & Hr & _ & Hl).
  split; [exact Hr|].
  apply (Hl 2%nat). cbn; lia.
Defined.

(** C2, as stated, fails: LED 1 is the first LED that is not ready, yet
    LED 0, ready, fails to configure with -5, so [init_leds] returns -5 and
    not the not-ready code; it never looks at LED 1 and logs no readiness
    error. *)
Lemma init_leds_first_not_ready_needs_configured_prefix :
  first_not_ready drv_led0_unconfigurable_led1_absent 1 /\
  result (init_leds drv_led0_unconfigurable_led1_absent) all_inactive = -5 /\
  result (init_leds drv_led0_unconfigurable_led1_absent) all_inactive
    <> - ENODEV /\
  emitted (init_leds drv_led0_unconfigurable_led1_absent) all_inactive =
    [EvIsReady 0; EvConfigure 0 GPIO_OUTPUT_INACTIVE;
     EvLog (ERR_configure_failed 0 (-5))] /\
  ~ In (EvLog (ERR_not_ready 1))
       (emitted (init_leds drv_led0_unconfigurable_led1_absent) all_inactive).
Proof.
  split; [|split; [|split; [|split]]].
  - split; [cbn; lia|]. split; [reflexivity|].
    intros j Hj. assert (j = 0%nat) by lia; subst; reflexivity.
  - reflexivity.
  - discriminate.
  - reflexivity.
  - cbn. intros [H | [H | [H | []]]]; discriminate H.
Qed.

(** C2, amended.  If LED [k] is the first LED that is not ready and every
    LED before it configures successfully, [init_leds] returns the
    not-ready code [-ENODEV]; the index [k] is named by the error record
    logged just before the return.  The calls are the check and
    configuration of LEDs 0..k-1, then the check of LED [k]: no driver call
    touches an LED beyond [k], and every LED before [k] has been configured
    exactly once and is inactive. *)
Theorem init_leds_not_ready (drv : gpio_driver) (k : nat) (l : levels) :
  first_not_ready drv k ->
  (forall j, (j < k)%nat -> configure_rc drv j GPIO_OUTPUT_INACTIVE = 0) ->
  result (init_leds drv) l = - ENODEV /\
  emitted (init_leds drv) l =
    flat_map ok_calls (seq 0 k) ++ [EvIsReady k; EvLog (ERR_not_ready k)] /\
  (forall ev j, In ev (emitted (init_leds drv) l) ->
                led_of_event ev = Some j -> (j <= k)%nat) /\
  (forall j, (j < k)%nat ->
     length (filter (configures j) (emitted (init_leds drv) l)) = 1%nat /\
     final (init_leds drv) l j = false).
Proof.
  intros Hfirst Hcfg.
  unfold result, final, emitted.
  rewrite (init_leds_stops_not_ready drv k l Hfirst Hcfg); cbn [fst snd].
  split; [reflexivity|]. split; [reflexivity|]. split.
  - intros ev j Hin Hled. apply in_app_or in Hin as [Hin | Hin].
    + pose proof (ok_calls_led _ _ _ _ Hin Hled); lia.
    + destruct Hin as [<- | [<- | []]]; cbn in Hled; [|discriminate].
      injection Hled as <-; lia.
  - intros j Hj. rewrite filter_app, length_app, ok_calls_configures.
    rewrite configured_spec.
    destruct (Nat.ltb_spec j (0 + k)); [|lia]. cbn [Nat.leb andb].
    split; [|reflexivity].
    cbn [filter configures].
    destruct (Nat.eqb_spec k j); [lia | reflexivity].
Qed.

Lemma init_leds_not_ready_witness :
  first_not_ready (drv_not_ready_from 2) 2 /\
  result (init_leds (drv_not_ready_from 2)) all_active = - ENODEV /\
  emitted (init_leds (drv_not_ready_from 2)) all_active =
    [EvIsReady 0; EvConfigure 0 GPIO_OUTPUT_INACTIVE;
     EvIsReady 1; EvConfigure 1 GPIO_OUTPUT_INACTIVE;
     EvIsReady 2; EvLog (ERR_not_ready 2)].
Proof.
  assert (H : first_not_ready (drv_not_ready_from 2) 2).
  { split; [cbn; lia|]. split; [reflexivity|].
    intros j Hj. apply Nat.ltb_lt; exact Hj. }
  split; [exact H|].
  destruct (init_leds_not_ready (drv_not_ready_from 2) 2 all_active H
              (fun _ _ => eq_refl)) as (Hr & He & _).
  split; [exact Hr | exact He].
Defined.

(** C3.  If LEDs 0..i-1 are ready and configure successfully, LED [i] is
    ready and its configuration fails with code [e], then [init_leds]
    returns [e] itself, and the last thing it does before returning is to
    log the configure-failed error record carrying both [i] and [e].  No
    driver call touches an LED beyond [i]; in particular none is
    configured. *)
Theorem init_leds_configure_failed (drv : gpio_driver) (i : nat) (e : Z)
    (l : levels) :
  (i < NUM_LEDS)%nat ->
  (forall j, (j < i)%nat -> led_ok drv j) ->
  dev_ready drv i = true ->
  configure_rc drv i GPIO_OUTPUT_INACTIVE = e -> e <> 0 ->
  result (init_leds drv) l = e /\
  emitted (init_leds drv) l =
    flat_map ok_calls (seq 0 i) ++
    [EvIsReady i; EvConfigure i GPIO_OUTPUT_INACTIVE;
     EvLog (ERR_configure_failed i e)] /\
  (forall ev j, In ev (emitted (init_leds drv) l) ->
                led_of_event ev = Some j -> (j <= i)%nat) /\
  (forall j, (i < j)%nat ->
     filter (configures j) (emitted (init_leds drv) l) = []).
Proof.
  intros Hi Hok Hr Hc He.
  unfold result, emitted.
  rewrite (init_leds_stops_configure_failed drv i e l Hi Hok Hr Hc He).
  cbn [fst snd].
  assert (Hled : forall ev j,
    In ev (flat_map ok_calls (seq 0 i) ++
           [EvIsReady i; EvConfigure i GPIO_OUTPUT_INACTIVE;
            EvLog (ERR_configure_failed i e)]) ->
    led_of_event ev = Some j -> (j <= i)%nat).
  { intros ev j Hin Hled. apply in_app_or in Hin as [Hin | Hin].
    - pose proof (ok_calls_led _ _ _ _ Hin Hled); lia.
    - destruct Hin as [<- | [<- | [<- | []]]]; cbn in Hled;
        try discriminate; injection Hled as <-; lia. }
  repeat split; [exact Hled|].
  intros j Hj.
  destruct (filter _ _) as [|ev t] eqn:Hf; [reflexivity|].
  assert (Hin : In ev (ev :: t)) by (left; reflexivity).
  rewrite <- Hf in Hin. apply filter_In in Hin as [Hin Hcf].
  destruct ev; cbn in Hcf; try discriminate.
  apply Nat.eqb_eq in Hcf; subst.
  specialize (Hled _ j Hin eq_refl); lia.
Qed.

Lemma init_leds_configure_failed_witness :
  result (init_leds (drv_configure_fails 1 (-22))) odd_active = -22 /\
  emitted (init_leds (drv_configure_fails 1 (-22))) odd_active =
    [EvIsReady 0; EvConfigure 0 GPIO_OUTPUT_INACTIVE;
     EvIsReady 1; EvConfigure 1 GPIO_OUTPUT_INACTIVE;
     EvLog (ERR_configure_failed 1 (-22))].
Proof.
  assert (H0 : forall j, (j < 1)%nat -> led_ok (drv_configure_fails 1 (-22)) j).
  { intros j Hj. assert (j = 0%nat) by lia; subst. split; reflexivity. }
  assert (H1 : (1 < NUM_LEDS)%nat) by (cbn; lia).
  assert (H2 : -22 <> 0) by lia.
  destruct (init_leds_configure_failed (drv_configure_fails 1 (-22)) 1 (-22)
              odd_active H1 H0 eq_refl eq_refl H2) as (Hr & He & _).
  split; [exact Hr | exact He].
Defined.

(** C10.  The value [init_leds] returns for a not-ready LED is the one
    constant [-ENODEV] whatever the index: a failure at LED [j] on one
    board and a failure at LED [k] on another return equal values, while
    their logs name [j] and [k]. *)
Theorem init_leds_not_ready_code_uniform (drv1 drv2 : gpio_driver)
    (j k : nat) (l1 l2 : levels) :
  first_not_ready drv1 j ->
  (forall i, (i < j)%nat -> configure_rc drv1 i GPIO_OUTPUT_INACTIVE = 0) ->
  first_not_ready drv2 k ->
  (forall i, (i < k)%nat -> configure_rc drv2 i GPIO_OUTPUT_INACTIVE = 0) ->
  result (init_leds drv1) l1 = - ENODEV /\
  result (init_leds drv2) l2 = - ENODEV /\
  result (init_leds drv1) l1 = result (init_leds drv2) l2 /\
  last (emitted (init_leds drv1) l1) (EvSleep 0) = EvLog (ERR_not_ready j) /\
  last (emitted (init_leds drv2) l2) (EvSleep 0) = EvLog (ERR_not_ready k).
Proof.
  intros Hj Hcj Hk Hck.
  unfold result, emitted.
  rewrite (init_leds_stops_not_ready drv1 j l1 Hj Hcj).
  rewrite (init_leds_stops_not_ready drv2 k l2 Hk Hck).
  cbn [fst snd].
  repeat split; apply last_two.
Qed.

Lemma init_leds_not_ready_code_uniform_witness :
  result (init_leds (drv_not_ready_from 0)) all_inactive =
  result (init_leds (drv_not_ready_from 3)) all_active /\
  last (emitted (init_leds (drv_not_ready_from 0)) all_inactive) (EvSleep 0)
    = EvLog (ERR_not_ready 0) /\
  last (emitted (init_leds (drv_not_ready_from 3)) all_active) (EvSleep 0)
    = EvLog (ERR_not_ready 3).
Proof.
  assert (H0 : first_not_ready (drv_not_ready_from 0) 0).
  { split; [cbn; lia|]. split; [reflexivity|]. intros j Hj; lia. }
  assert (H3 : first_not_ready (drv_not_ready_from 3) 3).
  { split; [cbn; lia|]. split; [reflexivity|].
    intros j Hj. apply Nat.ltb_lt; exact Hj. }
  destruct (init_leds_not_ready_code_uniform
              (drv_not_ready_from 0) (drv_not_ready_from 3) 0 3
              all_inactive all_active H0 (fun _ _ => eq_refl)
              H3 (fun _ _ => eq_refl)) as (_ & _ & Heq & Hl0 & Hl3).
  split; [exact Heq|]. split; [exact Hl0 | exact Hl3].
Defined.

(** * The chase *)

(** One step of the chase puts the LED back where it was. *)
Lemma toggle_step_neutral (i : nat) (l : levels) (p : nat) :
  final (gpio_pin_toggle_dt i ;; k_msleep STEP_DELAY_MS ;;
         gpio_pin_toggle_dt i) l p = l p.
Proof.
  cbn. unfold set_level.
  destruct (Nat.eqb_spec p i) as [->|Hne]; [|reflexivity].
  rewrite Nat.eqb_refl; apply negb_involutive.
Qed.

Lemma toggle_step_calls (i : nat) (l : levels) :
  emitted (gpio_pin_toggle_dt i ;; k_msleep STEP_DELAY_MS ;;
           gpio_pin_toggle_dt i) l = toggle_pair i.
Proof. reflexivity. Qed.

Lemma do_chase_lap_neutral (l : levels) (p : nat) :
  final do_chase_lap l p = l p.
Proof.
  unfold do_chase_lap.
  rewrite !final_bind.
  change (final (k_msleep LAP_DELAY_MS) ?x) with x.
  rewrite for_down_neutral by apply toggle_step_neutral.
  apply for_up_neutral, toggle_step_neutral.
Qed.

Lemma do_chase_lap_calls (l : levels) : emitted do_chase_lap l = lap_calls.
Proof.
  unfold do_chase_lap.
  rewrite !emitted_bind.
  rewrite (for_up_emitted _ toggle_pair toggle_step_calls).
  rewrite (for_down_emitted _ toggle_pair toggle_step_calls).
  reflexivity.
Qed.

Lemma chase_loop_neutral (n : nat) (l : levels) (p : nat) :
  final (chase_loop n) l p = l p.
Proof.
  revert l; induction n as [|n IH]; intros l; cbn [chase_loop].
  - reflexivity.
  - rewrite final_bind, IH; apply do_chase_lap_neutral.
Qed.

Lemma chase_loop_calls (n : nat) (l : levels) :
  emitted (chase_loop n) l = concat (repeat lap_calls n).
Proof.
  revert l; induction n as [|n IH]; intros l; cbn [chase_loop repeat concat].
  - reflexivity.
  - now rewrite emitted_bind, do_chase_lap_calls, IH.
Qed.

(** C4.  The chase is state-neutral.  A single toggle inverts its LED, a
    toggle, hold, toggle step restores every level, so does a whole
    [do_chase_lap], and so does any number of consecutive laps: at the end
    of each call every LED is at the level it had before the first one. *)
Theorem chase_state_neutral (l : levels) (p : nat) :
  (forall i, final (gpio_pin_toggle_dt i) l i = negb (l i)) /\
  (forall i, final (gpio_pin_toggle_dt i ;; k_msleep STEP_DELAY_MS ;;
                    gpio_pin_toggle_dt i) l p = l p) /\
  final do_chase_lap l p = l p /\
  (forall n, final (chase_loop n) l p = l p).
Proof.
  split; [|split; [|split]].
  - intros i; cbn; apply set_level_same.
  - intros i; apply toggle_step_neutral.
  - apply do_chase_lap_neutral.
  - intros n; apply chase_loop_neutral.
Qed.

(** C5.  One [do_chase_lap] with four LEDs makes toggle, 150 ms hold,
    toggle steps at LEDs 0, 1, 2, 3 (forward) and then at LEDs 3, 2, 1, 0
    (backward, both ends included): eight steps, sixteen toggles, followed by
    one 400 ms hold, and nothing else. *)
Theorem do_chase_lap_order (l : levels) :
  emitted do_chase_lap l =
    flat_map toggle_pair [0; 1; 2; 3]%nat ++
    flat_map toggle_pair [3; 2; 1; 0]%nat ++ [EvSleep 400] /\
  emitted do_chase_lap l =
    [EvToggle 0; EvSleep 150; EvToggle 0; EvToggle 1; EvSleep 150; EvToggle 1;
     EvToggle 2; EvSleep 150; EvToggle 2; EvToggle 3; EvSleep 150; EvToggle 3;
     EvToggle 3; EvSleep 150; EvToggle 3; EvToggle 2; EvSleep 150; EvToggle 2;
     EvToggle 1; EvSleep 150; EvToggle 1; EvToggle 0; EvSleep 150; EvToggle 0;
     EvSleep 400] /\
  length (emitted do_chase_lap l) = (8 * length (toggle_pair 0) + 1)%nat.
Proof.
  rewrite do_chase_lap_calls. repeat split.
Qed.

(** * The startup blink *)

Lemma set_all_calls (v : Z) (n start : nat) (l : levels) :
  emitted (for_up start n (fun i => gpio_pin_set_dt i v)) l =
  map (fun i => EvSet i v) (seq start n).
Proof.
  rewrite (for_up_emitted _ (fun i => [EvSet i v])) by reflexivity.
  induction (seq start n) as [|x xs IH]; cbn; [reflexivity | now rewrite IH].
Qed.

(** Writing a level to LEDs [start], ..., [start+n-1] leaves exactly those
    at that level. *)
Lemma set_all_final (v : Z) (n start : nat) (l : levels) (p : nat) :
  final (for_up start n (fun i => gpio_pin_set_dt i v)) l p =
  if (Nat.leb start p && Nat.ltb p (start + n))%bool
  then negb (Z.eqb v 0) else l p.
Proof.
  revert start l; induction n as [|n IH]; intros start l; cbn [for_up].
  - destruct (Nat.leb_spec start p), (Nat.ltb_spec p (start + 0));
      cbn [andb]; try reflexivity; lia.
  - rewrite final_bind, IH.
    change (final (gpio_pin_set_dt start v) l)
      with (set_level l start (negb (Z.eqb v 0))).
    destruct (Nat.leb_spec (S start) p), (Nat.ltb_spec p (S start + n)),
      (Nat.leb_spec start p), (Nat.ltb_spec p (start + S n)); cbn [andb];
      try lia; try reflexivity;
      solve [ apply set_level_other; lia
            | replace p with start by lia; apply set_level_same ].
Qed.

Lemma startup_blink_calls (l : levels) :
  emitted startup_blink l = blink_cycle_calls ++ blink_cycle_calls.
Proof.
  unfold startup_blink; cbn [for_up STARTUP_FLASHES].
  rewrite !emitted_bind, !set_all_calls. reflexivity.
Qed.

Lemma startup_blink_final (l : levels) (i : nat) :
  (i < NUM_LEDS)%nat -> final startup_blink l i = false.
Proof.
  intros Hi. unfold startup_blink; cbn [for_up STARTUP_FLASHES].
  rewrite !final_bind.
  change (final (ret tt) ?x) with x.
  change (final (k_msleep 100) ?x) with x.
  rewrite set_all_final.
  destruct (Nat.ltb_spec i (0 + NUM_LEDS)); [reflexivity | lia].
Qed.

(** Splitting a trace known in full before a given call. *)
Ltac split_trace H pre :=
  destruct pre as [|? pre]; cbn [app] in H;
  [ try discriminate H
  | try discriminate H; injection H as _ H; split_trace H pre ].

(** C6.  [startup_blink], whose flash count is 2, makes exactly two
    cycles, each writing 1 to LEDs 0..3, then writing 0 to LEDs 0..3, then
    sleeping 100 ms; when it returns every LED is inactive. *)
Theorem startup_blink_two_cycles (l : levels) :
  STARTUP_FLASHES = 2%nat /\
  emitted startup_blink l =
    [EvSet 0 1; EvSet 1 1; EvSet 2 1; EvSet 3 1; EvSleep 0;
     EvSet 0 0; EvSet 1 0; EvSet 2 0; EvSet 3 0; EvSleep 100;
     EvSet 0 1; EvSet 1 1; EvSet 2 1; EvSet 3 1; EvSleep 0;
     EvSet 0 0; EvSet 1 0; EvSet 2 0; EvSet 3 0; EvSleep 100] /\
  Forall (fun i => final startup_blink l i = false) (seq 0 NUM_LEDS).
Proof.
  split; [reflexivity|]. split; [apply startup_blink_calls|].
  apply Forall_forall; intros i Hi.
  apply in_seq in Hi. apply startup_blink_final; lia.
Qed.

(** C7.  In each of the two cycles of [startup_blink] the sleep between the
    last write of 1 and the first write of 0 is [k_msleep(0)]: wherever a
    sleep directly follows a write of 1 in the trace, that write is the one
    to the last LED, the sleep lasts 0 ms, and the write of 0 to LED 0 comes
    next. *)
Theorem startup_blink_on_hold_zero (l : levels) :
  emitted startup_blink l =
    concat (repeat
      (map (fun i => EvSet i 1) (seq 0 NUM_LEDS) ++ [EvSleep 0] ++
       map (fun i => EvSet i 0) (seq 0 NUM_LEDS) ++ [EvSleep 100])
      STARTUP_FLASHES) /\
  forall pre i d post,
    emitted startup_blink l = pre ++ EvSet i 1 :: EvSleep d :: post ->
    i = 3%nat /\ d = 0 /\ exists post', post = EvSet 0 0 :: post'.
Proof.
  split; [apply startup_blink_calls|].
  intros pre i d post H. rewrite startup_blink_calls in H.
  cbn in H.
  split_trace H pre;
    injection H as <- <- <-; repeat split; eexists; reflexivity.
Qed.

Lemma startup_blink_on_hold_zero_witness :
  emitted startup_blink odd_active =
    [EvSet 0 1; EvSet 1 1; EvSet 2 1] ++ EvSet 3 1 :: EvSleep 0 ::
    [EvSet 0 0; EvSet 1 0; EvSet 2 0; EvSet 3 0; EvSleep 100] ++
    blink_cycle_calls /\
  (3%nat = 3%nat /\ 0 = 0 /\
   exists post',
     [EvSet 0 0; EvSet 1 0; EvSet 2 0; EvSet 3 0; EvSleep 100] ++
     blink_cycle_calls = EvSet 0 0 :: post').
Proof.
  assert (H : emitted startup_blink odd_active =
    [EvSet 0 1; EvSet 1 1; EvSet 2 1] ++ EvSet 3 1 :: EvSleep 0 ::
    [EvSet 0 0; EvSet 1 0; EvSet 2 0; EvSet 3 0; EvSleep 100] ++
    blink_cycle_calls) by reflexivity.
  split; [exact H|].
  exact (proj2 (startup_blink_on_hold_zero odd_active) _ _ _ _ H).
Defined.

(** C9.  [startup_blink] writes absolute levels (a write of 1 leaves the
    LED active, a write of 0 leaves it inactive, whatever it was), so
    whatever the levels were before the call, some LEDs active or all of
    them, every LED of the table is at level 0 when it returns. *)
Theorem startup_blink_all_inactive (l : levels) (i : nat) :
  (i < NUM_LEDS)%nat ->
  final (gpio_pin_set_dt i 1) l i = true /\
  final (gpio_pin_set_dt i 0) l i = false /\
  final startup_blink l i = false.
Proof.
  intros Hi. split; [|split].
  - cbn; apply set_level_same.
  - cbn; apply set_level_same.
  - unfold startup_blink; cbn [for_up STARTUP_FLASHES].
    rewrite !final_bind.
    change (final (ret tt) ?x) with x.
    change (final (k_msleep 100) ?x) with x.
    rewrite set_all_final.
    destruct (Nat.ltb_spec i (0 + NUM_LEDS)); [reflexivity | lia].
Qed.

Lemma startup_blink_all_inactive_witness :
  all_active 3%nat = true /\ final startup_blink all_active 3%nat = false.
Proof.
  split; [reflexivity|].
  assert (H : (3 < NUM_LEDS)%nat) by (cbn; lia).
  exact (proj2 (proj2 (startup_blink_all_inactive all_active 3 H))).
Defined.

(** * The entry point *)

Lemma filter_none {A} (P : A -> bool) (t : list A) :
  Forall (fun x => P x = false) t -> filter P t = [].
Proof.
  induction 1 as [|x t Hx _ IH]; cbn; [reflexivity | now rewrite Hx].
Qed.

Lemma laps_no_info (n : nat) : filter is_info (concat (repeat lap_calls n)) = [].
Proof.
  induction n as [|n IH]; cbn [repeat concat]; [reflexivity|].
  now rewrite filter_app, IH.
Qed.

(** [main] when initialisation fails. *)
Lemma main_init_failed (drv : gpio_driver) (laps : nat) (l : levels) :
  result (init_leds drv) l <> 0 ->
  result (main drv laps) l = Returned (result (init_leds drv) l) /\
  emitted (main drv laps) l =
    emitted (init_leds drv) l ++ [EvPrintk (result (init_leds drv) l)].
Proof.
  intros He. apply Z.eqb_neq in He.
  unfold main. rewrite result_bind, emitted_bind, He. split; reflexivity.
Qed.

(** [main] when initialisation succeeds, watched for [laps] laps. *)
Lemma main_init_ok (drv : gpio_driver) (laps : nat) (l : levels) :
  result (init_leds drv) l = 0 ->
  result (main drv laps) l = Running /\
  emitted (main drv laps) l =
    emitted (init_leds drv) l ++ [EvLog (INF_leds_ready NUM_LEDS)] ++
    (blink_cycle_calls ++ blink_cycle_calls) ++
    concat (repeat lap_calls laps).
Proof.
  intros He. unfold main.
  rewrite result_bind, emitted_bind, He; cbn [Z.eqb negb].
  rewrite !result_bind, !emitted_bind.
  rewrite startup_blink_calls, chase_loop_calls.
  split; [reflexivity|]. cbn [emitted ret snd LOG_INF_leds_ready].
  now rewrite app_nil_r.
Qed.

(** C8.  When [init_leds] fails with code [e], [main] prints the failure
    through printk as its last call, returns exactly [e], and makes no call
    of [startup_blink] or [do_chase_lap] (no level write, no toggle, no
    sleep), however long it is watched.  When [init_leds] succeeds, [main]
    never returns: after any number of laps it is still in the chase loop,
    and what it has done so far is the initialisation, then one info record
    reporting 4 LEDs, then the startup blink, then the laps; that record is
    the only info record. *)
Theorem main_contract (drv : gpio_driver) (l : levels) :
  (forall e, result (init_leds drv) l = e -> e <> 0 -> forall laps,
     result (main drv laps) l = Returned e /\
     emitted (main drv laps) l = emitted (init_leds drv) l ++ [EvPrintk e] /\
     Forall (fun ev => is_animation ev = false) (emitted (main drv laps) l)) /\
  (result (init_leds drv) l = 0 -> forall laps,
     result (main drv laps) l = Running /\
     emitted (main drv laps) l =
       emitted (init_leds drv) l ++ [EvLog (INF_leds_ready 4)] ++
       emitted startup_blink (final (init_leds drv) l) ++
       concat (repeat (emitted do_chase_lap l) laps) /\
     filter is_info (emitted (main drv laps) l) = [EvLog (INF_leds_ready 4)]).
Proof.
  pose proof (init_loop_quiet drv NUM_LEDS 0 l) as Hquiet.
  fold (init_leds drv) in Hquiet.
  split.
  - intros e He Hne laps. subst e.
    destruct (main_init_failed drv laps l Hne) as [Hr Ht].
    split; [exact Hr|]. split; [exact Ht|].
    rewrite Ht. apply Forall_app; split.
    + eapply Forall_impl; [|exact Hquiet]. now intros ev [Ha _].
    + repeat constructor.
  - intros He laps.
    destruct (main_init_ok drv laps l He) as [Hr Ht].
    split; [exact Hr|].
    rewrite startup_blink_calls, do_chase_lap_calls.
    split; [exact Ht|].
    rewrite Ht, !filter_app, laps_no_info.
    rewrite (filter_none is_info (emitted (init_leds drv) l)).
    + reflexivity.
    + eapply Forall_impl; [|exact Hquiet]. now intros ev [_ Hi].
Qed.

Lemma main_contract_witness :
  (result (main (drv_not_ready_from 1) 5) all_inactive = Returned (- ENODEV) /\
   emitted (main (drv_not_ready_from 1) 5) all_inactive =
     [EvIsReady 0; EvConfigure 0 GPIO_OUTPUT_INACTIVE;
      EvIsReady 1; EvLog (ERR_not_ready 1); EvPrintk (-19)]) /\
  (result (main drv_all_ok 2) all_active = Running /\
   filter is_info (emitted (main drv_all_ok 2) all_active) =
     [EvLog (INF_leds_ready 4)]).
Proof.
  split.
  - destruct (main_contract (drv_not_ready_from 1) all_inactive) as [Hfail _].
    assert (Hne : - ENODEV <> 0) by (unfold ENODEV; lia).
    destruct (Hfail (- ENODEV) eq_refl Hne 5%nat) as (Hr & Ht & _).
    split; [exact Hr | exact Ht].
  - destruct (main_contract drv_all_ok all_active) as [_ Hok].
    destruct (Hok eq_refl 2%nat) as (Hr & _ & Hi).
    split; [exact Hr | exact Hi].
Defined.


(** * Further properties of the initialisation *)

Lemma led_good_ok (drv : gpio_driver) (i : nat) :
  led_good drv i = true <-> led_ok drv i.
Proof.
  unfold led_good, led_ok. rewrite andb_true_iff, Z.eqb_eq. reflexivity.
Qed.

(** [find] over a range returns the least index that passes the test. *)
Lemma find_seq_first (f : nat -> bool) (n s k : nat) :
  find f (seq s n) = Some k ->
  (s <= k < s + n)%nat /\ f k = true /\
  forall j, (s <= j < k)%nat -> f j = false.
Proof.
  revert s; induction n as [|n IH]; intros s; cbn [seq find].
  - discriminate.
  - destruct (f s) eqn:Hs.
    + intros [= <-]. repeat split; [lia | lia | assumption | intros j Hj; lia].
    + intros Hfind. destruct (IH _ Hfind) as (Hk & Hfk & Hlt).
      repeat split; [lia | lia | assumption |].
      intros j Hj. destruct (Nat.eq_dec j s) as [->|Hne]; [assumption|].
      apply Hlt; lia.
Qed.

Lemma first_bad_none (drv : gpio_driver) :
  first_bad drv = None -> forall i, (i < NUM_LEDS)%nat -> led_ok drv i.
Proof.
  intros Hnone i Hi. apply led_good_ok.
  apply negb_false_iff.
  apply (find_none _ _ Hnone i). apply in_seq; lia.
Qed.

Lemma first_bad_some (drv : gpio_driver) (k : nat) :
  first_bad drv = Some k ->
  (k < NUM_LEDS)%nat /\ led_good drv k = false /\
  forall j, (j < k)%nat -> led_ok drv j.
Proof.
  intros Hsome. apply find_seq_first in Hsome as (Hk & Hbad & Hlt).
  split; [lia|]. split; [now apply negb_true_iff|].
  intros j Hj. apply led_good_ok, negb_false_iff, Hlt; lia.
Qed.

(** The run of [init_leds] when its first bad LED is [k]. *)
Lemma init_leds_stops_at_first_bad (drv : gpio_driver) (k : nat) (l : levels) :
  first_bad drv = Some k ->
  init_leds drv l =
  (fst (init_outcome drv), configured l 0 k, snd (init_outcome drv)) /\
  fst (init_outcome drv) <> 0.
Proof.
  intros Hsome. unfold init_outcome; rewrite Hsome.
  destruct (first_bad_some drv k Hsome) as (Hk & Hbad & Hok).
  unfold led_good in Hbad.
  destruct (dev_ready drv k) eqn:Hr; cbn [fst snd].
  - cbn [andb] in Hbad. apply Z.eqb_neq in Hbad. split; [|exact Hbad].
    now apply init_leds_stops_configure_failed.
  - split; [|unfold ENODEV; lia].
    apply init_leds_stops_not_ready.
    + split; [assumption|]. split; [assumption|].
      intros j Hj; apply Hok, Hj.
    + intros j Hj; apply Hok, Hj.
Qed.

(** X2.  Whatever the hardware answers, the value [init_leds] returns and
    the calls it makes are fixed by the first LED that is not ready or
    fails to configure: none gives 0 after all four LEDs; a not-ready one
    gives [-ENODEV]; an unconfigurable one gives its configure code. *)
Theorem init_leds_closed_form (drv : gpio_driver) (l : levels) :
  (result (init_leds drv) l, emitted (init_leds drv) l) = init_outcome drv.
Proof.
  destruct (first_bad drv) as [k|] eqn:Hfb.
  - destruct (init_leds_stops_at_first_bad drv k l Hfb) as [Hrun _].
    unfold result, emitted; rewrite Hrun; cbn [fst snd].
    now destruct (init_outcome drv).
  - unfold result, emitted.
    rewrite (init_leds_completes drv l (first_bad_none drv Hfb)).
    unfold init_outcome; rewrite Hfb; reflexivity.
Qed.

(** X1.  [init_leds] returns 0 exactly when every LED of the table is ready
    and configures successfully; any bad LED makes the result nonzero. *)
Theorem init_leds_zero_iff_all_ok (drv : gpio_driver) (l : levels) :
  result (init_leds drv) l = 0 <->
  forall i, (i < NUM_LEDS)%nat -> led_ok drv i.
Proof.
  split.
  - intros Hz. destruct (first_bad drv) as [k|] eqn:Hfb.
    + destruct (init_leds_stops_at_first_bad drv k l Hfb) as [Hrun Hne].
      unfold result in Hz; rewrite Hrun in Hz; cbn [fst] in Hz.
      contradiction.
    + now apply first_bad_none.
  - intros Hok. unfold result.
    now rewrite (init_leds_completes drv l Hok).
Qed.

Lemma init_leds_zero_iff_all_ok_witness :
  result (init_leds drv_all_ok) odd_active = 0 /\
  ~ (forall i, (i < NUM_LEDS)%nat -> led_ok drv_led2_unconfigurable i).
Proof.
  split.
  - apply (proj2 (init_leds_zero_iff_all_ok drv_all_ok odd_active)).
    intros i _; split; reflexivity.
  - intros Hall.
    apply (proj2 (init_leds_zero_iff_all_ok drv_led2_unconfigurable
                    all_inactive)) in Hall.
    discriminate Hall.
Defined.

(** Every run of [init_leds]: [k] good iterations, then one of three ends. *)
Lemma init_leds_cases (drv : gpio_driver) (l : levels) :
  exists k tail r,
    init_leds drv l =
      (r, configured l 0 k, flat_map ok_calls (seq 0 k) ++ tail) /\
    (k <= NUM_LEDS)%nat /\
    (forall j, (j < k)%nat -> led_ok drv j) /\
    ((r = 0 /\ tail = []) \/
     ((k < NUM_LEDS)%nat /\ dev_ready drv k = false /\ r <> 0 /\
      tail = [EvIsReady k; EvLog (ERR_not_ready k)]) \/
     ((k < NUM_LEDS)%nat /\ dev_ready drv k = true /\ r <> 0 /\
      tail = [EvIsReady k; EvConfigure k GPIO_OUTPUT_INACTIVE;
              EvLog (ERR_configure_failed k r)])).
Proof.
  destruct (first_bad drv) as [k|] eqn:Hfb.
  - destruct (init_leds_stops_at_first_bad drv k l Hfb) as [Hrun Hne].
    destruct (first_bad_some drv k Hfb) as (Hk & _ & Hok).
    revert Hrun Hne. unfold init_outcome; rewrite Hfb.
    destruct (dev_ready drv k) eqn:Hr; cbn [fst snd]; intros Hrun Hne.
    + exists k, [EvIsReady k; EvConfigure k GPIO_OUTPUT_INACTIVE;
                 EvLog (ERR_configure_failed k
                          (configure_rc drv k GPIO_OUTPUT_INACTIVE))],
             (configure_rc drv k GPIO_OUTPUT_INACTIVE).
      split; [exact Hrun|]. split; [lia|]. split; [exact Hok|].
      right; right. repeat split; assumption.
    + exists k, [EvIsReady k; EvLog (ERR_not_ready k)], (- ENODEV).
      split; [exact Hrun|]. split; [lia|]. split; [exact Hok|].
      right; left. repeat split; assumption.
  - pose proof (first_bad_none drv Hfb) as Hok.
    exists NUM_LEDS, [], 0.
    rewrite app_nil_r. split; [now apply init_leds_completes|].
    split; [lia|]. split; [exact Hok|]. left; split; reflexivity.
Qed.

Lemma ok_calls_no_error (m i : nat) :
  filter is_error (flat_map ok_calls (seq i m)) = [].
Proof.
  revert i; induction m as [|m IH]; intros i; cbn; [reflexivity | apply IH].
Qed.

(** X3.  Whatever the hardware answers, [init_leds] configures an LED at
    most once, and only an LED of the table that has just reported ready,
    and only as inactive output. *)
Theorem init_leds_configures_only_ready (drv : gpio_driver) (l : levels) :
  (forall i, (length (filter (configures i) (emitted (init_leds drv) l))
              <= 1)%nat) /\
  (forall i f, In (EvConfigure i f) (emitted (init_leds drv) l) ->
     (i < NUM_LEDS)%nat /\ dev_ready drv i = true /\
     f = GPIO_OUTPUT_INACTIVE /\ In (EvIsReady i) (emitted (init_leds drv) l)).
Proof.
  destruct (init_leds_cases drv l) as (k & tail & r & Hrun & Hk & Hok & Hend).
  unfold emitted; rewrite Hrun; cbn [snd]. split.
  - intros i. rewrite filter_app, length_app, ok_calls_configures.
    destruct (Nat.leb_spec 0 i), (Nat.ltb_spec i (0 + k)); cbn [andb]; try lia;
      destruct Hend as [(_ & ->) | [(_ & _ & _ & ->) | (_ & _ & _ & ->)]];
      cbn [filter configures length]; try lia;
      destruct (Nat.eqb_spec k i); cbn [length]; lia.
  - intros i f Hin. apply in_app_or in Hin as [Hin | Hin].
    + pose proof (ok_calls_led _ _ _ _ Hin eq_refl) as Hi.
      split; [lia|]. split; [apply Hok; lia|].
      split; [eapply ok_calls_flags; eassumption|].
      apply in_or_app; left. apply in_flat_map.
      exists i. split; [apply in_seq; lia | left; reflexivity].
    + destruct Hend as [(_ & ->) | [(_ & _ & _ & ->) | (Hlt & Hr & _ & ->)]].
      * destruct Hin.
      * destruct Hin as [H | [H | []]]; discriminate H.
      * destruct Hin as [H | [H | [H | []]]]; try discriminate H.
        injection H as <- <-.
        split; [exact Hlt|]. split; [exact Hr|]. split; [reflexivity|].
        apply in_or_app; right; left; reflexivity.
Qed.

Lemma init_leds_configures_only_ready_witness :
  In (EvConfigure 1 GPIO_OUTPUT_INACTIVE)
     (emitted (init_leds (drv_not_ready_from 2)) all_active) /\
  dev_ready (drv_not_ready_from 2) 1 = true /\
  In (EvIsReady 1) (emitted (init_leds (drv_not_ready_from 2)) all_active).
Proof.
  assert (H : In (EvConfigure 1 GPIO_OUTPUT_INACTIVE)
                 (emitted (init_leds (drv_not_ready_from 2)) all_active))
    by (cbn; tauto).
  split; [exact H|].
  destruct (proj2 (init_leds_configures_only_ready
                     (drv_not_ready_from 2) all_active) _ _ H)
    as (_ & Hr & _ & Hin).
  split; [exact Hr | exact Hin].
Defined.

(** X4.  [init_leds] logs an error record exactly when it fails: a run
    that returns 0 logs none, a run that returns a nonzero code logs one,
    and that record is its last call. *)
Theorem init_leds_error_log_iff_failure (drv : gpio_driver) (l : levels) :
  filter is_error (emitted (init_leds drv) l) =
  if Z.eqb (result (init_leds drv) l) 0 then []
  else [last (emitted (init_leds drv) l) (EvSleep 0)].
Proof.
  destruct (init_leds_cases drv l) as (k & tail & r & Hrun & _ & _ & Hend).
  unfold emitted, result; rewrite Hrun; cbn [fst snd].
  rewrite filter_app, ok_calls_no_error; cbn [app].
  destruct Hend as [(-> & ->) | [(_ & _ & Hne & ->) | (_ & _ & Hne & ->)]].
  - reflexivity.
  - apply Z.eqb_neq in Hne; rewrite Hne.
    now rewrite last_two.
  - apply Z.eqb_neq in Hne; rewrite Hne.
    change (flat_map ok_calls (seq 0 k) ++
            [EvIsReady k; EvConfigure k GPIO_OUTPUT_INACTIVE;
             EvLog (ERR_configure_failed k r)])
      with (flat_map ok_calls (seq 0 k) ++ [EvIsReady k] ++
            [EvConfigure k GPIO_OUTPUT_INACTIVE;
             EvLog (ERR_configure_failed k r)]).
    now rewrite app_assoc, last_two.
Qed.

(** X5.  A failed initialisation is not rolled back.  When LED [k] is the
    first bad one, every LED before it stays configured inactive and every
    LED after it keeps the level it had.  (LED [k] itself is left out: what
    a failed configuration does to its pin is the driver's business.) *)
Theorem init_leds_partial_not_rolled_back (drv : gpio_driver) (k p : nat)
    (l : levels) :
  first_bad drv = Some k -> p <> k ->
  final (init_leds drv) l p = if Nat.ltb p k then false else l p.
Proof.
  intros Hfb Hp.
  destruct (init_leds_stops_at_first_bad drv k l Hfb) as [Hrun _].
  unfold final; rewrite Hrun; cbn [fst snd].
  rewrite configured_spec. cbn [Nat.leb Nat.add andb]. reflexivity.
Qed.

Lemma init_leds_partial_not_rolled_back_witness :
  final (init_leds drv_led2_unconfigurable) all_active 0%nat = false /\
  final (init_leds drv_led2_unconfigurable) all_active 3%nat = true.
Proof.
  assert (H : first_bad drv_led2_unconfigurable = Some 2%nat) by reflexivity.
  split.
  - apply (init_leds_partial_not_rolled_back _ 2 0 all_active H). lia.
  - apply (init_leds_partial_not_rolled_back _ 2 3 all_active H). lia.
Defined.

(** * Further properties of the entry point *)

Lemma total_sleep_app (t u : list event) :
  total_sleep (t ++ u) = total_sleep t + total_sleep u.
Proof.
  induction t as [|ev t IH]; cbn [app total_sleep]; [reflexivity|].
  destruct ev; rewrite IH; lia.
Qed.

Lemma total_sleep_quiet (t : list event) :
  Forall (fun ev => is_animation ev = false) t -> total_sleep t = 0.
Proof.
  induction 1 as [|ev t Hev _ IH]; [reflexivity|].
  destruct ev; cbn in Hev |- *; try discriminate; exact IH.
Qed.

Lemma total_sleep_laps (n : nat) :
  total_sleep (concat (repeat lap_calls n)) = 1600 * Z.of_nat n.
Proof.
  induction n as [|n IH]; [reflexivity|].
  cbn [repeat concat]. rewrite total_sleep_app, IH.
  change (total_sleep lap_calls) with 1600. lia.
Qed.

Lemma init_leds_never_sleeps (drv : gpio_driver) (l : levels) :
  Forall (fun ev => is_animation ev = false) (emitted (init_leds drv) l).
Proof.
  eapply Forall_impl; [|apply (init_loop_quiet drv NUM_LEDS 0 l)].
  now intros ev [Ha _].
Qed.

(** X6.  Once initialisation has succeeded, all four LEDs are inactive at
    the end of the startup blink and at the end of every chase lap, however
    many laps have run and whatever the levels were at boot.  After a failed
    initialisation [main] leaves the levels as [init_leds] left them. *)
Theorem main_lap_boundary_levels (drv : gpio_driver) (l : levels) :
  (result (init_leds drv) l = 0 ->
   forall laps i, (i < NUM_LEDS)%nat -> final (main drv laps) l i = false) /\
  (result (init_leds drv) l <> 0 ->
   forall laps i, final (main drv laps) l i = final (init_leds drv) l i).
Proof.
  split.
  - intros He laps i Hi. unfold main.
    rewrite final_bind, He; cbn [Z.eqb negb].
    rewrite !final_bind.
    change (final (ret Running) ?x) with x.
    rewrite chase_loop_neutral.
    now apply startup_blink_final.
  - intros He laps i. apply Z.eqb_neq in He. unfold main.
    rewrite final_bind, He. reflexivity.
Qed.

Lemma main_lap_boundary_levels_witness :
  final (main drv_all_ok 3) all_active 2%nat = false /\
  final (main drv_led2_unconfigurable 3) all_active 3%nat =
  final (init_leds drv_led2_unconfigurable) all_active 3%nat.
Proof.
  split.
  - assert (H : (2 < NUM_LEDS)%nat) by (cbn; lia).
    exact (proj1 (main_lap_boundary_levels drv_all_ok all_active)
             eq_refl 3%nat 2%nat H).
  - assert (H : result (init_leds drv_led2_unconfigurable) all_active <> 0)
      by (cbn; lia).
    exact (proj2 (main_lap_boundary_levels drv_led2_unconfigurable all_active)
             H 3%nat 3%nat).
Defined.

(** X7.  [main] never returns 0.  It returns at all only when [init_leds]
    failed, and then with that very code; when [init_leds] succeeded it is
    still running after any number of laps. *)
Theorem main_never_returns_zero (drv : gpio_driver) (laps : nat) (l : levels) :
  result (main drv laps) l <> Returned 0 /\
  (result (main drv laps) l = Running <-> result (init_leds drv) l = 0) /\
  (forall e, result (main drv laps) l = Returned e <->
             result (init_leds drv) l = e /\ e <> 0).
Proof.
  destruct (Z.eq_dec (result (init_leds drv) l) 0) as [He|He].
  - destruct (main_init_ok drv laps l He) as [Hr _]. rewrite Hr.
    split; [discriminate|]. split; [tauto|].
    intros e; split; [discriminate|]. intros [<- Hne]; contradiction.
  - destruct (main_init_failed drv laps l He) as [Hr _]. rewrite Hr.
    split; [intros [= H]; contradiction|].
    split; [split; [discriminate | contradiction]|].
    intros e; split.
    + intros [= <-]. split; [reflexivity | exact He].
    + intros [<- _]; reflexivity.
Qed.

Lemma main_never_returns_zero_witness :
  result (init_leds (drv_not_ready_from 1)) all_inactive = - ENODEV /\
  result (main drv_all_ok 7) all_inactive = Running.
Proof.
  split.
  - assert (H : result (main (drv_not_ready_from 1) 7) all_inactive =
                Returned (- ENODEV)) by reflexivity.
    destruct (main_never_returns_zero (drv_not_ready_from 1) 7 all_inactive)
      as (_ & _ & Hret).
    exact (proj1 (proj1 (Hret (- ENODEV)) H)).
  - destruct (main_never_returns_zero drv_all_ok 7 all_inactive)
      as (_ & Hrun & _).
    exact (proj2 Hrun eq_refl).
Defined.

(** X8.  Time spent sleeping.  The startup blink sleeps 200 ms in all, one
    chase lap 1600 ms, and initialisation never sleeps: a [main] whose
    initialisation succeeded has slept 200 + 1600 n ms when its n-th lap
    ends, and one whose initialisation failed returns without sleeping. *)
Theorem main_sleep_budget (drv : gpio_driver) (laps : nat) (l : levels) :
  total_sleep (emitted startup_blink l) = 200 /\
  total_sleep (emitted do_chase_lap l) = 1600 /\
  total_sleep (emitted (init_leds drv) l) = 0 /\
  total_sleep (emitted (main drv laps) l) =
    if Z.eqb (result (init_leds drv) l) 0
    then 200 + 1600 * Z.of_nat laps else 0.
Proof.
  pose proof (total_sleep_quiet _ (init_leds_never_sleeps drv l)) as Hinit.
  split; [now rewrite startup_blink_calls|].
  split; [now rewrite do_chase_lap_calls|].
  split; [exact Hinit|].
  destruct (Z.eq_dec (result (init_leds drv) l) 0) as [He|He].
  - destruct (main_init_ok drv laps l He) as [_ Ht].
    rewrite Ht, He, !total_sleep_app, Hinit, total_sleep_laps.
    reflexivity.
  - destruct (main_init_failed drv laps l He) as [_ Ht].
    apply Z.eqb_neq in He.
    rewrite Ht, He, total_sleep_app, Hinit. reflexivity.
Qed.

(** Every driver call of a trace names an LED of the table. *)
Lemma in_table_laps (n : nat) :
  Forall (fun ev => forall j, led_of_event ev = Some j -> (j < NUM_LEDS)%nat)
         (concat (repeat lap_calls n)).
Proof.
  induction n as [|n IH]; cbn [repeat concat]; [constructor|].
  apply Forall_app; split; [|exact IH].
  apply Forall_forall; intros ev Hin j Hled. cbn in Hin.
  repeat (destruct Hin as [<- | Hin];
          [cbn in Hled; try discriminate Hled;
           injection Hled as <-; cbn; lia|]).
  destruct Hin.
Qed.

(** X10.  No call ever indexes [leds] out of bounds: whatever the hardware
    answers and however long [main] runs, every readiness check,
    configuration, write and toggle names an LED below [NUM_LEDS]. *)
Theorem main_led_index_in_bounds (drv : gpio_driver) (laps : nat) (l : levels)
    (ev : event) (j : nat) :
  In ev (emitted (main drv laps) l) -> led_of_event ev = Some j ->
  (j < NUM_LEDS)%nat.
Proof.
  assert (Hinit : forall ev j, In ev (emitted (init_leds drv) l) ->
                    led_of_event ev = Some j -> (j < NUM_LEDS)%nat).
  { clear ev j. intros ev j.
    destruct (init_leds_cases drv l) as (k & tail & r & Hrun & Hk & _ & Hend).
    unfold emitted; rewrite Hrun; cbn [snd].
    intros Hin Hled. apply in_app_or in Hin as [Hin | Hin].
    - pose proof (ok_calls_led _ _ _ _ Hin Hled); lia.
    - destruct Hend as [(_ & ->) | [(Hlt & _ & _ & ->) | (Hlt & _ & _ & ->)]].
      + destruct Hin.
      + destruct Hin as [<- | [<- | []]]; cbn in Hled; try discriminate Hled;
          injection Hled as <-; exact Hlt.
      + destruct Hin as [<- | [<- | [<- | []]]]; cbn in Hled;
          try discriminate Hled; injection Hled as <-; exact Hlt. }
  destruct (Z.eq_dec (result (init_leds drv) l) 0) as [He|He].
  - destruct (main_init_ok drv laps l He) as [_ Ht]. rewrite Ht.
    intros Hin Hled.
    apply in_app_or in Hin as [Hin | Hin]; [now apply (Hinit ev)|].
    apply in_app_or in Hin as [Hin | Hin].
    { destruct Hin as [<- | []]; discriminate Hled. }
    apply in_app_or in Hin as [Hin | Hin].
    + cbn in Hin.
      repeat (destruct Hin as [<- | Hin];
              [cbn in Hled; try discriminate Hled;
               injection Hled as <-; cbn; lia|]).
      destruct Hin.
    + pose proof (in_table_laps laps) as Hall.
      rewrite Forall_forall in Hall. now apply (Hall ev).
  - destruct (main_init_failed drv laps l He) as [_ Ht]. rewrite Ht.
    intros Hin Hled.
    apply in_app_or in Hin as [Hin | Hin]; [now apply (Hinit ev)|].
    destruct Hin as [<- | []]; discriminate Hled.
Qed.

Lemma main_led_index_in_bounds_witness :
  In (EvToggle 3) (emitted (main drv_all_ok 1) all_inactive) /\
  (3 < NUM_LEDS)%nat.
Proof.
  assert (H : In (EvToggle 3) (emitted (main drv_all_ok 1) all_inactive))
    by (cbn; tauto).
  split; [exact H|].
  exact (main_led_index_in_bounds drv_all_ok 1 all_inactive _ 3 H eq_refl).
Defined.

(** * Levels during the animation *)

Lemma replay_app (t u : list event) (l : levels) :
  replay (t ++ u) l = replay u (replay t l).
Proof. apply fold_left_app. Qed.

(** Replaying depends on the levels only LED by LED. *)
Lemma replay_ext (t : list event) (l l' : levels) :
  (forall p, l p = l' p) -> forall p, replay t l p = replay t l' p.
Proof.
  revert l l'; induction t as [|ev t IH]; intros l l' Heq p; cbn.
  - apply Heq.
  - apply IH. intros q.
    destruct ev; cbn; try apply Heq; unfold set_level;
      destruct (Nat.eqb q i); try apply Heq; try reflexivity.
    now rewrite Heq.
Qed.

(** Programs whose final levels are those their recorded calls produce. *)
Section Replay.
Lemma bind_replay {A B} (m : M A) (k : A -> M B) :
  (forall l p, final m l p = replay (emitted m l) l p) ->
  (forall a l p, final (k a) l p = replay (emitted (k a) l) l p) ->
  forall l p, final (bind m k) l p = replay (emitted (bind m k) l) l p.
Proof.
  intros Hm Hk l p.
  rewrite final_bind, emitted_bind, replay_app, Hk.
  apply replay_ext, Hm.
Qed.

Variable body : nat -> M unit.
Hypothesis body_replay :
  forall i l p, final (body i) l p = replay (emitted (body i) l) l p.

Lemma for_up_replay (n start : nat) (l : levels) (p : nat) :
  final (for_up start n body) l p =
  replay (emitted (for_up start n body) l) l p.
Proof.
  revert start l p; induction n as [|n IH]; intros start l p; cbn [for_up].
  - reflexivity.
  - apply bind_replay; [apply body_replay | intros _; apply IH].
Qed.

Lemma for_down_replay (n : nat) (l : levels) (p : nat) :
  final (for_down n body) l p = replay (emitted (for_down n body) l) l p.
Proof.
  revert l p; induction n as [|n IH]; intros l p; cbn [for_down].
  - reflexivity.
  - apply bind_replay; [apply body_replay | intros _; apply IH].
Qed.
End Replay.

Lemma do_chase_lap_replay (l : levels) (p : nat) :
  final do_chase_lap l p = replay (emitted do_chase_lap l) l p.
Proof.
  unfold do_chase_lap.
  apply bind_replay; [|intros _; apply bind_replay].
  - intros l' p'. apply for_up_replay. reflexivity.
  - intros l' p'. apply for_down_replay. reflexivity.
  - reflexivity.
Qed.

Lemma startup_blink_replay (l : levels) (p : nat) :
  final startup_blink l p = replay (emitted startup_blink l) l p.
Proof.
  unfold startup_blink. apply for_up_replay. intros _ l' p'.
  repeat (apply bind_replay;
          [intros ? ?; try apply for_up_replay; reflexivity | intros _]).
  reflexivity.
Qed.

(** Levels after a known prefix of calls, at an LED that the prefix left
    where it was. *)
Ltac same_level p Hp :=
  intros p Hp;
  destruct p as [|[|[|[|p]]]]; try (exfalso; apply Hp; reflexivity);
  cbn; rewrite ?negb_involutive; reflexivity.

(** X9.  During a chase lap at most one LED is ever away from the level
    it had when the lap began: after any number of the lap's calls, every
    LED but one is at its starting level (and after all of them, every
    LED is).  The levels after the calls are those the lap itself ends
    with. *)
Theorem do_chase_lap_single_deviation (l : levels) :
  (forall p, replay (emitted do_chase_lap l) l p = final do_chase_lap l p) /\
  forall k, exists i, forall p, p <> i ->
    replay (firstn k (emitted do_chase_lap l)) l p = l p.
Proof.
  split; [intros p; symmetry; apply do_chase_lap_replay|].
  intros k. rewrite do_chase_lap_calls.
  do 25 (destruct k as [|k];
         [ first [ exists 0%nat; same_level p Hp
                 | exists 1%nat; same_level p Hp
                 | exists 2%nat; same_level p Hp
                 | exists 3%nat; same_level p Hp ] | ]).
  exists 0%nat; intros p _.
  rewrite firstn_all2 by (cbn; lia).
  rewrite <- do_chase_lap_calls with (l := l), <- do_chase_lap_replay.
  apply do_chase_lap_neutral.
Qed.

(** Splitting a trace known in full before a given call, keeping what
    comes before it. *)
Ltac split_trace_keep H pre :=
  destruct pre as [|? pre]; cbn [app] in H;
  [ try discriminate H
  | try discriminate H; injection H as <- H; split_trace_keep H pre ].

(** X11.  What the LEDs show during the sleeps of the startup blink: at
    every 0 ms sleep all four LEDs are active, at every 100 ms sleep all
    four are inactive, and there is no other sleep. *)
Theorem startup_blink_hold_levels (l : levels) (pre post : list event)
    (d : Z) :
  emitted startup_blink l = pre ++ EvSleep d :: post ->
  (d = 0 /\ forall i, (i < NUM_LEDS)%nat -> replay pre l i = true) \/
  (d = 100 /\ forall i, (i < NUM_LEDS)%nat -> replay pre l i = false).
Proof.
  intros H. rewrite startup_blink_calls in H. cbn in H.
  split_trace_keep H pre; injection H as <- <-;
    [left | right | left | right]; (split; [reflexivity|]);
    intros i Hi; destruct i as [|[|[|[|i]]]]; try reflexivity;
    cbn in Hi; lia.
Qed.

Lemma startup_blink_hold_levels_witness :
  replay [EvSet 0 1; EvSet 1 1; EvSet 2 1; EvSet 3 1] all_inactive 2%nat
  = true.
Proof.
  assert (H : emitted startup_blink all_inactive =
              [EvSet 0 1; EvSet 1 1; EvSet 2 1; EvSet 3 1] ++ EvSleep 0 ::
              [EvSet 0 0; EvSet 1 0; EvSet 2 0; EvSet 3 0; EvSleep 100] ++
              blink_cycle_calls) by reflexivity.
  destruct (startup_blink_hold_levels all_inactive _ _ _ H)
    as [[_ Hon] | [Hd _]].
  - apply Hon. cbn; lia.
  - discriminate Hd.
Defined.
